(** * SoundSpace: the session controller, the Piano and Drums panels and the
    recording export, embedded in Rocq.

    Sources: [src/unnamed/part_000] (the [SoundSpace] component),
    [src/src/components/Piano.tsx] and [src/src/components/Drums.tsx].

    Modelling conventions.
    - A JS [number] holding milliseconds is a [Z]; [Date.now()] is passed in
      explicitly as [now].
    - A JS [Set<string>] is a duplicate-free [list string] with [setHas],
      [setAdd] and [setDelete].
    - React state is explicit state passing.  A [useCallback] closure is a
      record of the values it captured at the render that created it: this
      matters because a panel's window listeners are registered by an effect
      whose only dependency is [pressedKeys], so they keep calling the
      [onNotePlay] of the render at which they were last registered.
    - The audio context is taken to be running and the synthesizers mounted,
      so [playNote] / [playDrum] run to completion synchronously.
    - A pending [setTimeout] is a pair (id, expiry); due timers fire before
      the next input event is handled. *)

From Stdlib Require Import String Ascii List ZArith Bool Lia Sorted.
Import ListNotations.
Open Scope string_scope.
Open Scope Z_scope.

(* ------------------------------------------------------------------ *)
(** ** JS sets of strings *)

Definition setHas (x : string) (s : list string) : bool :=
  existsb (String.eqb x) s.

(** [new Set(prev).add(x)] *)
Definition setAdd (x : string) (s : list string) : list string :=
  if setHas x s then s else s ++ [x].

(** [const newSet = new Set(prev); newSet.delete(x); return newSet] *)
Definition setDelete (x : string) (s : list string) : list string :=
  filter (fun y => negb (String.eqb y x)) s.

(** [String.prototype.toLowerCase].  A key string is its UTF-8 bytes.
    The characters whose lowercase form is an ASCII letter are the ASCII
    capitals and U+212A KELVIN SIGN (bytes E2 84 AA), which lowercases to
    [k]; these are mapped.  Every other non-ASCII character lowercases to
    non-ASCII text, so leaving it as it is does not change whether a
    lowercased key equals a key of the mappings (all ASCII letters). *)
Definition lowerAscii (c : ascii) : ascii :=
  let n := nat_of_ascii c in
  if (65 <=? n)%nat && (n <=? 90)%nat then ascii_of_nat (n + 32) else c.

Fixpoint toLowerCase (s : string) : string :=
  match s with
  | EmptyString => EmptyString
  | String c1 s1 =>
      match s1 with
      | String c2 (String c3 s3) =>
          if (Ascii.eqb c1 "226" && Ascii.eqb c2 "132" && Ascii.eqb c3 "170")%char
          then String "k" (toLowerCase s3)
          else String (lowerAscii c1) (toLowerCase s1)
      | _ => String (lowerAscii c1) (toLowerCase s1)
      end
  end.

(* ------------------------------------------------------------------ *)
(** ** The session controller ([SoundSpace], part_000) *)

(** [export type Instrument = 'piano' | 'drums'] *)
Inductive Instrument := piano | drums.

Definition Instrument_eqb (a b : Instrument) : bool :=
  match a, b with
  | piano, piano | drums, drums => true
  | _, _ => false
  end.

(** [interface NoteEvent] *)
Record NoteEvent := mkNoteEvent {
  instrument : Instrument;
  note : string;
  timestamp : Z
}.

(** The state of [SoundSpace]: three [useState] cells and the
    [recordingStartTime] ref. *)
Record SoundSpace := mkSoundSpace {
  activeInstrument : Instrument;
  isRecording : bool;
  recordedNotes : list NoteEvent;
  recordingStartTime : Z
}.

(** Initial render: [useState('piano')], [useState(false)], [useState([])],
    [useRef(0)]. *)
Definition initSoundSpace : SoundSpace := mkSoundSpace piano false [] 0.

(** [handleStartRecording] *)
Definition handleStartRecording (now : Z) (s : SoundSpace) : SoundSpace :=
  mkSoundSpace (activeInstrument s) true [] now.

(** [handleStopRecording] *)
Definition handleStopRecording (s : SoundSpace) : SoundSpace :=
  mkSoundSpace (activeInstrument s) false (recordedNotes s) (recordingStartTime s).

(** A [handleNotePlay] closure: [useCallback(..., [isRecording, activeInstrument])]
    captures these two values at the render that created it.  The ref
    [recordingStartTime.current] is read at call time. *)
Record HandleNotePlay := mkHandleNotePlay {
  cap_isRecording : bool;
  cap_activeInstrument : Instrument
}.

(** The closure created by a render of [SoundSpace] in state [s]. *)
Definition renderHandleNotePlay (s : SoundSpace) : HandleNotePlay :=
  mkHandleNotePlay (isRecording s) (activeInstrument s).

(** Calling [handleNotePlay(note)]; [setRecordedNotes(prev => [...prev, e])]
    is a functional update, so it appends to the current log. *)
Definition handleNotePlay (f : HandleNotePlay) (n : string) (now : Z)
    (s : SoundSpace) : SoundSpace :=
  if cap_isRecording f then
    let noteEvent := mkNoteEvent (cap_activeInstrument f) n
                       (now - recordingStartTime s) in
    mkSoundSpace (activeInstrument s) (isRecording s)
      (recordedNotes s ++ [noteEvent]) (recordingStartTime s)
  else s.

(** The document built by [handleDownloadRecording]; [generatedAt] is the
    instant whose ISO string forms the title
    [`SoundSpace Recording - ${new Date().toISOString()}`]. *)
Record Recording := mkRecording {
  generatedAt : Z;
  notes : list NoteEvent;
  duration : Z
}.

(** [x || 0] on a number: [0] is falsy. *)
Definition orZero (x : Z) : Z := if x =? 0 then 0 else x.

(** [recordedNotes[recordedNotes.length - 1]?.timestamp || 0] *)
Definition lastTimestamp (l : list NoteEvent) : Z :=
  match nth_error l (length l - 1) with
  | Some e => orZero (timestamp e)
  | None => 0
  end.

(** [handleDownloadRecording]: [None] is the early [return] (no file);
    [Some r] is the document serialised and offered as
    [soundspace-recording-<now>.json].  It calls no state setter. *)
Definition handleDownloadRecording (now : Z) (s : SoundSpace) : option Recording :=
  match recordedNotes s with
  | [] => None
  | _ => Some (mkRecording now (recordedNotes s) (lastTimestamp (recordedNotes s)))
  end.

(* ------------------------------------------------------------------ *)
(** ** Instrument panels: state shared by [Piano] and [Drums] *)

(** The window listeners registered by the panel's second [useEffect]
    capture [pressedKeys] and (through [playNote] / [playDrum]) the
    [onNotePlay] prop of the render at which the effect last ran. *)
Record Listener := mkListener {
  l_pressedKeys : list string;
  l_onNotePlay : HandleNotePlay
}.

(** [active] is [activeKeys] (Piano, note names) or [activePads] (Drums,
    drum names); [timers] are the pending active-state [setTimeout]s. *)
Record Panel := mkPanel {
  active : list string;
  pressedKeys : list string;
  timers : list (string * Z);
  listener : Listener
}.

(** What the panel does to the outside world: trigger a synthesizer voice
    (with a pitch, or none for a noise voice), or call an [onNotePlay]
    closure. *)
Inductive Output :=
| Sound (voice : string) (pitch : option string)
| NotePlayed (f : HandleNotePlay) (n : string).

(** Mounting: both sets are [new Set()]; the effect registers listeners
    over the mount render's props. *)
Definition mountPanel (props : HandleNotePlay) : Panel :=
  mkPanel [] [] [] (mkListener [] props).

(** The timer callbacks due at [t] run: each deletes its id from the
    active set. *)
Definition fireDue (t : Z) (p : Panel) : Panel :=
  mkPanel
    (fold_left (fun s te => if snd te <=? t then setDelete (fst te) s else s)
       (timers p) (active p))
    (pressedKeys p)
    (filter (fun te => t <? snd te) (timers p))
    (listener p).

(** After a handler that called [setPressedKeys] (always a fresh [Set]
    object), React re-renders and the [[pressedKeys]] effect re-registers
    the listeners over the current render's [pressedKeys] and props. *)
Definition commit (props : HandleNotePlay) (setPressed : bool) (p : Panel) : Panel :=
  if setPressed then
    mkPanel (active p) (pressedKeys p) (timers p) (mkListener (pressedKeys p) props)
  else p.

(** Panel input events. *)
Inductive PEvent :=
| KeyDown (eventKey : string)
| KeyUp (eventKey : string)
| PointerDown (target : string)
| Tick.

(** The active-state predicates of the spec, read off the panel state. *)

(** A timer of [id] set on a trigger has not expired at [t]. *)
Definition windowOpenAt (t : Z) (id : string) (p : Panel) : bool :=
  existsb (fun te => String.eqb (fst te) id && (t <? snd te)) (timers p).

(* ------------------------------------------------------------------ *)
(** ** Piano.tsx *)

Module Piano.

Definition whiteKeys : list string :=
  ["C4"; "D4"; "E4"; "F4"; "G4"; "A4"; "B4"; "C5"].

(** [blackKeys] without its [null] gaps (they render no button). *)
Definition blackKeys : list string := ["C#4"; "D#4"; "F#4"; "G#4"; "A#4"].

Definition keyboardMapping : list (string * string) :=
  [("a", "C4"); ("s", "D4"); ("d", "E4"); ("f", "F4");
   ("g", "G4"); ("h", "A4"); ("j", "B4"); ("k", "C5");
   ("w", "C#4"); ("e", "D#4"); ("t", "F#4"); ("y", "G#4"); ("u", "A#4")].

(** [keyboardMapping[key]] (all mapped values are non-empty, so truthy). *)
Fixpoint lookup (key : string) (m : list (string * string)) : option string :=
  match m with
  | [] => None
  | (k, v) :: m' => if String.eqb k key then Some v else lookup key m'
  end.

(** [Object.keys(keyboardMapping).find(k => keyboardMapping[k] === note)] *)
Definition findKeyOf (n : string) : option string :=
  option_map fst (find (fun kv => String.eqb (snd kv) n) keyboardMapping).

(** [playNote(note)] over the [onNotePlay] it closes over. *)
Definition playNote (onNotePlay : HandleNotePlay) (n : string) (now : Z)
    (p : Panel) : Panel * list Output :=
  (mkPanel (setAdd n (active p)) (pressedKeys p)
     (timers p ++ [(n, now + 150)]) (listener p),
   [Sound "Synth" (Some n); NotePlayed onNotePlay n]).

(** The registered [handleKeyDown]; the boolean says whether
    [setPressedKeys] was called. *)
Definition handleKeyDown (eventKey : string) (now : Z) (p : Panel)
    : Panel * list Output * bool :=
  let key := toLowerCase eventKey in
  match lookup key keyboardMapping with
  | Some n =>
      if negb (setHas key (l_pressedKeys (listener p))) then
        let p1 := mkPanel (active p) (setAdd key (pressedKeys p)) (timers p) (listener p) in
        let '(p2, out) := playNote (l_onNotePlay (listener p)) n now p1 in
        (p2, out, true)
      else (p, [], false)
  | None => (p, [], false)
  end.

(** The registered [handleKeyUp]. *)
Definition handleKeyUp (eventKey : string) (p : Panel) : Panel * list Output * bool :=
  let key := toLowerCase eventKey in
  match lookup key keyboardMapping with
  | Some n =>
      (mkPanel (setDelete n (active p)) (setDelete key (pressedKeys p))
         (timers p) (listener p), [], true)
  | None => (p, [], false)
  end.

(** [onMouseDown={() => handleKeyPress(note)}] on a rendered key: a fresh
    closure of the current render. *)
Definition handleKeyPress (props : HandleNotePlay) (n : string) (now : Z)
    (p : Panel) : Panel * list Output :=
  if existsb (String.eqb n) (whiteKeys ++ blackKeys) then playNote props n now p
  else (p, []).

(** [isKeyActive(note)] *)
Definition isKeyActive (n : string) (p : Panel) : bool :=
  setHas n (active p)
  || (existsb (String.eqb n) (map snd keyboardMapping)
      && setHas (match findKeyOf n with Some k => k | None => "" end)
                (pressedKeys p)).

(** One input event at time [now], under the current render's props:
    due timers fire, the handler runs, React commits. *)
Definition step (props : HandleNotePlay) (now : Z) (ev : PEvent) (p : Panel)
    : Panel * list Output :=
  let p0 := fireDue now p in
  match ev with
  | KeyDown k => let '(p1, out, sp) := handleKeyDown k now p0 in (commit props sp p1, out)
  | KeyUp k => let '(p1, out, sp) := handleKeyUp k p0 in (commit props sp p1, out)
  | PointerDown n => handleKeyPress props n now p0
  | Tick => (p0, [])
  end.

(** A key of the mapping, lowercased, is held. *)
Definition keyHeld (n : string) (p : Panel) : bool :=
  existsb (fun k => match lookup k keyboardMapping with
                    | Some v => String.eqb v n
                    | None => false end) (pressedKeys p).

End Piano.

(* ------------------------------------------------------------------ *)
(** ** Drums.tsx *)

Module Drums.

Record Drum := mkDrum {
  name : string;
  key : string;
  color : string;
  dnote : string
}.

Definition drumSounds : list Drum :=
  [mkDrum "Kick" "s" "from-red-500 to-red-600" "C2";
   mkDrum "Snare" "d" "from-orange-500 to-orange-600" "D2";
   mkDrum "Hi-Hat" "f" "from-yellow-500 to-yellow-600" "F#2";
   mkDrum "Crash" "g" "from-green-500 to-green-600" "A#2";
   mkDrum "Ride" "h" "from-blue-500 to-blue-600" "C3";
   mkDrum "Tom" "j" "from-purple-500 to-purple-600" "E3"].

(** The synthesizer classes of [synthsRef.current]. *)
Inductive SynthKind := MembraneSynth | NoiseSynth | MetalSynth.

(** [synthsRef.current[drumName]] after the mount effect. *)
Definition synthsRef (drumName : string) : option SynthKind :=
  if String.eqb drumName "Kick" then Some MembraneSynth
  else if String.eqb drumName "Snare" then Some NoiseSynth
  else if String.eqb drumName "Hi-Hat" then Some MetalSynth
  else if String.eqb drumName "Crash" then Some MetalSynth
  else if String.eqb drumName "Ride" then Some MetalSynth
  else if String.eqb drumName "Tom" then Some MembraneSynth
  else None.

(** [drumSounds.find(d => d.key === key)] *)
Definition findByKey (k : string) : option Drum :=
  find (fun d => String.eqb (key d) k) drumSounds.

(** [drumSounds.find(d => d.name === drumName)] *)
Definition findByName (n : string) : option Drum :=
  find (fun d => String.eqb (name d) n) drumSounds.

(** [playDrum(drumName, note)] over the [onNotePlay] it closes over. *)
Definition playDrum (onNotePlay : HandleNotePlay) (drumName n : string) (now : Z)
    (p : Panel) : Panel * list Output :=
  match synthsRef drumName with
  | None => (p, [])
  | Some synth =>
      let sound := match synth with
                   | NoiseSynth => Sound drumName None
                   | _ => Sound drumName (Some n)
                   end in
      (mkPanel (setAdd drumName (active p)) (pressedKeys p)
         (timers p ++ [(drumName, now + 200)]) (listener p),
       [sound; NotePlayed onNotePlay (drumName ++ "-" ++ n)])
  end.

(** The registered [handleKeyDown]. *)
Definition handleKeyDown (eventKey : string) (now : Z) (p : Panel)
    : Panel * list Output * bool :=
  let k := toLowerCase eventKey in
  match findByKey k with
  | Some drum =>
      if negb (setHas k (l_pressedKeys (listener p))) then
        let p1 := mkPanel (active p) (setAdd k (pressedKeys p)) (timers p) (listener p) in
        let '(p2, out) := playDrum (l_onNotePlay (listener p)) (name drum) (dnote drum) now p1 in
        (p2, out, true)
      else (p, [], false)
  | None => (p, [], false)
  end.

(** The registered [handleKeyUp]. *)
Definition handleKeyUp (eventKey : string) (p : Panel) : Panel * list Output * bool :=
  let k := toLowerCase eventKey in
  match findByKey k with
  | Some drum =>
      (mkPanel (setDelete (name drum) (active p)) (setDelete k (pressedKeys p))
         (timers p) (listener p), [], true)
  | None => (p, [], false)
  end.

(** [onMouseDown={() => handlePadClick(drum.name, drum.note)}] on the pad
    named [drumName]. *)
Definition handlePadClick (props : HandleNotePlay) (drumName : string) (now : Z)
    (p : Panel) : Panel * list Output :=
  match findByName drumName with
  | Some drum => playDrum props (name drum) (dnote drum) now p
  | None => (p, [])
  end.

(** [isPadActive(drumName)] *)
Definition isPadActive (drumName : string) (p : Panel) : bool :=
  setHas drumName (active p)
  || match findByName drumName with
     | Some drum => setHas (key drum) (pressedKeys p)
     | None => false
     end.

Definition step (props : HandleNotePlay) (now : Z) (ev : PEvent) (p : Panel)
    : Panel * list Output :=
  let p0 := fireDue now p in
  match ev with
  | KeyDown k => let '(p1, out, sp) := handleKeyDown k now p0 in (commit props sp p1, out)
  | KeyUp k => let '(p1, out, sp) := handleKeyUp k p0 in (commit props sp p1, out)
  | PointerDown n => handlePadClick props n now p0
  | Tick => (p0, [])
  end.

(** The key of a drum, lowercased, is held. *)
Definition keyHeld (drumName : string) (p : Panel) : bool :=
  existsb (fun k => match findByKey k with
                    | Some d => String.eqb (name d) drumName
                    | None => false end) (pressedKeys p).

End Drums.

(* ------------------------------------------------------------------ *)
(** ** The page: [SoundSpace] with its mounted panel *)

Record App := mkApp {
  session : SoundSpace;
  panel : Panel  (** the panel of [activeInstrument]; the other is unmounted *)
}.

Definition initApp : App :=
  mkApp initSoundSpace (mountPanel (renderHandleNotePlay initSoundSpace)).

Inductive Input :=
| SelectInstrument (i : Instrument)   (** the Piano / Drums buttons *)
| ClickRecord                         (** rendered while [!isRecording] *)
| ClickStop                           (** rendered while [isRecording] *)
| ClickDownload                       (** rendered while [recordedNotes.length > 0] *)
| PanelInput (ev : PEvent).

Inductive AppOutput :=
| Played (o : Output)
| File (stamp : Z) (r : Recording).

Definition panelStep (i : Instrument) : HandleNotePlay -> Z -> PEvent -> Panel -> Panel * list Output :=
  match i with piano => Piano.step | drums => Drums.step end.

(** The [onNotePlay] calls reach the closures they were made through. *)
Definition applyOutputs (now : Z) (outs : list Output) (s : SoundSpace) : SoundSpace :=
  fold_left (fun s o => match o with
                        | NotePlayed f n => handleNotePlay f n now s
                        | Sound _ _ => s
                        end) outs s.

Definition appStep (now : Z) (inp : Input) (a : App) : App * list AppOutput :=
  let s := session a in
  let props := renderHandleNotePlay s in
  match inp with
  | SelectInstrument i =>
      if Instrument_eqb i (activeInstrument s) then (a, [])
      else
        let s' := mkSoundSpace i (isRecording s) (recordedNotes s) (recordingStartTime s) in
        (mkApp s' (mountPanel (renderHandleNotePlay s')), [])
  | ClickRecord =>
      if isRecording s then (a, []) else (mkApp (handleStartRecording now s) (panel a), [])
  | ClickStop =>
      if isRecording s then (mkApp (handleStopRecording s) (panel a), []) else (a, [])
  | ClickDownload =>
      if Nat.ltb 0 (length (recordedNotes s)) then
        match handleDownloadRecording now s with
        | Some r => (a, [File now r])
        | None => (a, [])
        end
      else (a, [])
  | PanelInput ev =>
      let '(p', outs) := panelStep (activeInstrument s) props now ev (panel a) in
      (mkApp (applyOutputs now outs s) p', map Played outs)
  end.

(** Inputs at the given instants. *)
Fixpoint appRun (tr : list (Z * Input)) (a : App) : App :=
  match tr with
  | [] => a
  | (t, inp) :: tr' => appRun tr' (fst (appStep t inp a))
  end.

(** Panel runs: each event comes with the props of the render it reaches
    and its instant; the outputs of each event are kept in order. *)
Definition PStep := HandleNotePlay -> Z -> PEvent -> Panel -> Panel * list Output.

Fixpoint runPanel (stp : PStep) (evs : list (HandleNotePlay * Z * PEvent)) (p : Panel)
    : Panel * list (list Output) :=
  match evs with
  | [] => (p, [])
  | (props, t, ev) :: evs' =>
      let '(p1, o) := stp props t ev p in
      let '(pf, os) := runPanel stp evs' p1 in
      (pf, o :: os)
  end.

(** The instants of a trace do not go back, starting from [t0]. *)
Fixpoint timesFrom {A : Type} (t0 : Z) (tr : list (Z * A)) : Prop :=
  match tr with
  | [] => True
  | (t, _) :: tr' => t0 <= t /\ timesFrom t tr'
  end.

(** Event filters on a run, comparing keys lowercased as the handlers
    do: [noKeyUpOf key ev] says [ev] is not a key-up of [key],
    [noKeyDownOf key ev] that it is not a key-down of [key]. *)
Definition noKeyUpOf (key : string) (ev : PEvent) : bool :=
  match ev with
  | KeyUp k => negb (String.eqb (toLowerCase k) key)
  | _ => true
  end.

Definition noKeyDownOf (key : string) (ev : PEvent) : bool :=
  match ev with
  | KeyDown k => negb (String.eqb (toLowerCase k) key)
  | _ => true
  end.

(** A key-down of [key] replaced by the mere passing of time. *)
Definition muteKeyDown (key : string) (ev : PEvent) : PEvent :=
  match ev with
  | KeyDown k => if String.eqb (toLowerCase k) key then Tick else ev
  | _ => ev
  end.

(* ================================================================== *)
(** * Properties *)

(** ** Session controller *)

(** C4: from every prior state, [startRecording()] sets [isRecording],
    empties the log and sets the start time to now. *)
Theorem handleStartRecording_resets (now : Z) (s : SoundSpace) :
  isRecording (handleStartRecording now s) = true /\
  recordedNotes (handleStartRecording now s) = [] /\
  recordingStartTime (handleStartRecording now s) = now.
Proof. repeat split. Qed.

(** C8: [stopRecording()] clears [isRecording] and keeps the log. *)
Theorem handleStopRecording_keeps_log (s : SoundSpace) :
  isRecording (handleStopRecording s) = false /\
  recordedNotes (handleStopRecording s) = recordedNotes s.
Proof. split; reflexivity. Qed.

Lemma nth_error_last_app {A : Type} (l : list A) (e : A) :
  nth_error (l ++ [e]) (length (l ++ [e]) - 1) = Some e.
Proof.
  rewrite length_app; simpl.
  replace (length l + 1 - 1)%nat with (length l) by lia.
  rewrite nth_error_app2 by lia.
  rewrite Nat.sub_diag; reflexivity.
Qed.

(** C3: exporting an empty log yields no document; exporting a log whose
    last event is [e] yields the log verbatim with duration [timestamp e]. *)
Theorem handleDownloadRecording_spec (now : Z) (s : SoundSpace) :
  handleDownloadRecording now s =
  match rev (recordedNotes s) with
  | [] => None
  | e :: _ => Some (mkRecording now (recordedNotes s) (timestamp e))
  end.
Proof.
  unfold handleDownloadRecording.
  destruct (recordedNotes s) as [| x l] eqn:Hl; [reflexivity |].
  rewrite <- Hl.
  destruct (rev (recordedNotes s)) as [| e r] eqn:Hr.
  - apply (f_equal (@rev _)) in Hr. rewrite rev_involutive in Hr.
    rewrite Hl in Hr; discriminate.
  - apply (f_equal (@rev _)) in Hr. rewrite rev_involutive in Hr. simpl in Hr.
    unfold lastTimestamp. rewrite Hr, nth_error_last_app.
    unfold orZero. destruct (timestamp e =? 0) eqn:E; [| reflexivity].
    apply Z.eqb_eq in E; rewrite E; reflexivity.
Qed.

(** C10: the download changes nothing in the page state, so the same log
    can be downloaded again. *)
Theorem appStep_download_frame (now : Z) (a : App) :
  fst (appStep now ClickDownload a) = a.
Proof.
  unfold appStep.
  destruct (Nat.ltb 0 (length (recordedNotes (session a)))); [| reflexivity].
  destruct (handleDownloadRecording now (session a)); reflexivity.
Qed.

(** C1 (defect): a key pressed right after Record goes through the listener
    registered at mount, whose [onNotePlay] captured [isRecording = false]:
    the note sounds and [onNotePlay] is called while recording, but the log
    stays empty. *)
Theorem first_key_after_record_not_logged :
  let a1 := appRun [(10, ClickRecord)] initApp in
  isRecording (session a1) = true /\
  snd (appStep 20 (PanelInput (KeyDown "a")) a1)
    = [Played (Sound "Synth" (Some "C4"));
       Played (NotePlayed (mkHandleNotePlay false piano) "C4")] /\
  isRecording (session (fst (appStep 20 (PanelInput (KeyDown "a")) a1))) = true /\
  recordedNotes (session (fst (appStep 20 (PanelInput (KeyDown "a")) a1))) = [].
Proof. vm_compute. repeat split. Qed.

(** C5 (defect): after Stop, the listener registered during the recording
    still holds a [handleNotePlay] with [isRecording = true]: the next key
    press appends an event while [isRecording] is false. *)
Theorem key_after_stop_logged :
  let a1 := appRun [(10, ClickRecord); (15, PanelInput (KeyDown "a"));
                    (16, PanelInput (KeyUp "a")); (20, ClickStop)] initApp in
  isRecording (session a1) = false /\
  recordedNotes (session a1) = [] /\
  recordedNotes (session (fst (appStep 30 (PanelInput (KeyDown "a")) a1)))
    = [mkNoteEvent piano "C4" 20] /\
  isRecording (session (fst (appStep 30 (PanelInput (KeyDown "a")) a1))) = false.
Proof. vm_compute. repeat split. Qed.

(** ** Panels: invariants of every run from mount *)

Definition listenerFresh (p : Panel) : Prop :=
  l_pressedKeys (listener p) = pressedKeys p.

(** Every id in the active set has a pending timer. *)
Definition activeTimed (p : Panel) : Prop :=
  Forall (fun id => In id (map fst (timers p))) (active p).

Lemma runPanel_invariant (stp : PStep) (I : Panel -> Prop) :
  (forall props t ev p, I p -> I (fst (stp props t ev p))) ->
  forall evs p, I p -> I (fst (runPanel stp evs p)).
Proof.
  intros Hstep evs; induction evs as [| [[props t] ev] evs IH]; intros p Hp; simpl.
  - exact Hp.
  - specialize (Hstep props t ev p Hp).
    destruct (stp props t ev p) as [p1 o] eqn:E; simpl in Hstep.
    specialize (IH p1 Hstep).
    destruct (runPanel stp evs p1) as [pf os]; exact IH.
Qed.

Lemma setHas_In (x : string) (s : list string) : setHas x s = true <-> In x s.
Proof.
  unfold setHas; rewrite existsb_exists; split.
  - intros [y [Hy E]]; apply String.eqb_eq in E; subst; exact Hy.
  - intros H; exists x; split; [exact H | apply String.eqb_refl].
Qed.

Lemma In_setAdd (x y : string) (s : list string) :
  In x (setAdd y s) <-> x = y \/ In x s.
Proof.
  unfold setAdd; destruct (setHas y s) eqn:E.
  - apply setHas_In in E; split; [tauto | intros [-> | H]; assumption].
  - rewrite in_app_iff; simpl; split; intuition.
Qed.

Lemma In_setDelete (x y : string) (s : list string) :
  In x (setDelete y s) <-> In x s /\ x <> y.
Proof.
  unfold setDelete; rewrite filter_In; split.
  - intros [H E]; split; [exact H |].
    intros ->; rewrite String.eqb_refl in E; discriminate.
  - intros [H N]; split; [exact H |].
    destruct (String.eqb_spec x y); [contradiction | reflexivity].
Qed.

Lemma In_fireDue_fold (t : Z) (id : string) (ts : list (string * Z)) (s : list string) :
  In id (fold_left (fun s te => if snd te <=? t then setDelete (fst te) s else s) ts s) ->
  In id s /\ (forall te, In te ts -> fst te = id -> t < snd te).
Proof.
  revert s; induction ts as [| te ts IH]; intros s H; simpl in *.
  - split; [exact H | tauto].
  - destruct (IH _ H) as [H1 H2]; clear IH H.
    destruct (snd te <=? t) eqn:E.
    + apply In_setDelete in H1 as [H1 N]. split; [exact H1 |].
      intros te' [<- | Hin] Hf; [congruence | exact (H2 te' Hin Hf)].
    + split; [exact H1 |].
      intros te' [<- | Hin] Hf; [lia | exact (H2 te' Hin Hf)].
Qed.

Lemma fireDue_activeTimed (t : Z) (p : Panel) :
  activeTimed p -> activeTimed (fireDue t p).
Proof.
  unfold activeTimed; intros H. apply Forall_forall; intros id Hid.
  simpl in Hid. apply In_fireDue_fold in Hid as [Hid Hlive].
  rewrite Forall_forall in H. specialize (H id Hid).
  apply in_map_iff in H as [te [Hf Hte]].
  simpl. apply in_map_iff; exists te; split; [exact Hf |].
  apply filter_In; split; [exact Hte |].
  apply Z.ltb_lt, Hlive; assumption.
Qed.

(** After the due timers have fired at [t], every pending timer is still
    open at [t]. *)
Lemma fireDue_windowOpen (t : Z) (p : Panel) (id : string) :
  In id (map fst (timers (fireDue t p))) -> windowOpenAt t id (fireDue t p) = true.
Proof.
  intros H. apply in_map_iff in H as [te [Hf Hte]].
  unfold windowOpenAt. apply existsb_exists; exists te; split; [exact Hte |].
  simpl in Hte. apply filter_In in Hte as [_ Hlt].
  rewrite Hf, String.eqb_refl, Hlt; reflexivity.
Qed.

Lemma activeTimed_commit (props : HandleNotePlay) (b : bool) (p : Panel) :
  activeTimed p -> activeTimed (commit props b p).
Proof. destruct b; exact (fun H => H). Qed.

Lemma activeTimed_play (p : Panel) (id : string) (e : Z) (pk : list string) (l : Listener) :
  activeTimed p ->
  activeTimed (mkPanel (setAdd id (active p)) pk (timers p ++ [(id, e)]) l).
Proof.
  unfold activeTimed; intros H. apply Forall_forall; intros x Hx; simpl in Hx.
  apply In_setAdd in Hx as [-> | Hx]; simpl; rewrite map_app, in_app_iff.
  - right; simpl; left; reflexivity.
  - left. rewrite Forall_forall in H; exact (H x Hx).
Qed.

Lemma activeTimed_delete (p : Panel) (id : string) (pk : list string) (l : Listener) :
  activeTimed p -> activeTimed (mkPanel (setDelete id (active p)) pk (timers p) l).
Proof.
  unfold activeTimed; intros H. apply Forall_forall; intros x Hx; simpl in *.
  apply In_setDelete in Hx as [Hx _]. rewrite Forall_forall in H; exact (H x Hx).
Qed.

Lemma activeTimed_mount (props : HandleNotePlay) : activeTimed (mountPanel props).
Proof. constructor. Qed.

Lemma Piano_step_invariants (props : HandleNotePlay) (t : Z) (ev : PEvent) (p : Panel) :
  listenerFresh p /\ activeTimed p ->
  listenerFresh (fst (Piano.step props t ev p)) /\ activeTimed (fst (Piano.step props t ev p)).
Proof.
  intros [Hf Ht].
  pose proof (fireDue_activeTimed t p Ht) as Ht0.
  assert (Hf0 : listenerFresh (fireDue t p)) by exact Hf.
  unfold Piano.step. set (p0 := fireDue t p) in *. clearbody p0.
  destruct ev as [k | k | n |]; simpl.
  - unfold Piano.handleKeyDown.
    destruct (Piano.lookup _ _) as [n |]; [| split; assumption].
    destruct (negb _); simpl; [| split; assumption].
    split; [reflexivity |]. apply activeTimed_play; exact Ht0.
  - unfold Piano.handleKeyUp.
    destruct (Piano.lookup _ _) as [n |]; simpl; [| split; assumption].
    split; [reflexivity |]. apply activeTimed_delete; exact Ht0.
  - unfold Piano.handleKeyPress.
    destruct (existsb _ _); simpl; [| split; assumption].
    split; [exact Hf0 | apply activeTimed_play; exact Ht0].
  - split; assumption.
Qed.

Lemma Drums_step_invariants (props : HandleNotePlay) (t : Z) (ev : PEvent) (p : Panel) :
  listenerFresh p /\ activeTimed p ->
  listenerFresh (fst (Drums.step props t ev p)) /\ activeTimed (fst (Drums.step props t ev p)).
Proof.
  intros [Hf Ht].
  pose proof (fireDue_activeTimed t p Ht) as Ht0.
  assert (Hf0 : listenerFresh (fireDue t p)) by exact Hf.
  unfold Drums.step. set (p0 := fireDue t p) in *. clearbody p0.
  destruct ev as [k | k | n |]; simpl.
  - unfold Drums.handleKeyDown.
    destruct (Drums.findByKey _) as [d |]; [| split; assumption].
    destruct (negb _); simpl; [| split; assumption].
    unfold Drums.playDrum. destruct (Drums.synthsRef _) as [sk |]; simpl.
    + split; [reflexivity |]. apply activeTimed_play; exact Ht0.
    + split; [reflexivity | exact Ht0].
  - unfold Drums.handleKeyUp.
    destruct (Drums.findByKey _) as [d |]; simpl; [| split; assumption].
    split; [reflexivity |]. apply activeTimed_delete; exact Ht0.
  - unfold Drums.handlePadClick.
    destruct (Drums.findByName _) as [d |]; simpl; [| split; assumption].
    unfold Drums.playDrum. destruct (Drums.synthsRef _) as [sk |]; simpl;
      [| split; assumption].
    split; [exact Hf0 | apply activeTimed_play; exact Ht0].
  - split; assumption.
Qed.

Lemma Piano_run_invariants (props0 : HandleNotePlay) evs :
  listenerFresh (fst (runPanel Piano.step evs (mountPanel props0))) /\
  activeTimed (fst (runPanel Piano.step evs (mountPanel props0))).
Proof.
  apply (runPanel_invariant Piano.step (fun p => listenerFresh p /\ activeTimed p)).
  - intros; apply Piano_step_invariants; assumption.
  - split; [reflexivity | apply activeTimed_mount].
Qed.

Lemma Drums_run_invariants (props0 : HandleNotePlay) evs :
  listenerFresh (fst (runPanel Drums.step evs (mountPanel props0))) /\
  activeTimed (fst (runPanel Drums.step evs (mountPanel props0))).
Proof.
  apply (runPanel_invariant Drums.step (fun p => listenerFresh p /\ activeTimed p)).
  - intros; apply Drums_step_invariants; assumption.
  - split; [reflexivity | apply activeTimed_mount].
Qed.

(** ** The key mappings are one-to-one *)

Ltac split_eqb H :=
  repeat match type of H with
  | context [String.eqb ?a ?b] =>
      destruct (String.eqb_spec a b) as [?E | ?E]; [subst | ]; cbv beta iota in H
  end.

Lemma Piano_lookup_inv (k v : string) :
  Piano.lookup k Piano.keyboardMapping = Some v ->
  Piano.findKeyOf v = Some k /\
  existsb (String.eqb v) (map snd Piano.keyboardMapping) = true.
Proof.
  intros H; cbn [Piano.lookup Piano.keyboardMapping] in H;
    split_eqb H; try discriminate; injection H as <-; split; reflexivity.
Qed.

Lemma Piano_value_inv (v : string) :
  existsb (String.eqb v) (map snd Piano.keyboardMapping) = true ->
  exists k, Piano.findKeyOf v = Some k /\ Piano.lookup k Piano.keyboardMapping = Some v.
Proof.
  intros H; apply existsb_exists in H as [y [Hy E]].
  apply String.eqb_eq in E; subst y.
  cbn in Hy; repeat destruct Hy as [<- | Hy]; try contradiction;
    eexists; split; reflexivity.
Qed.

Lemma Drums_findByKey_inv (k : string) (d : Drums.Drum) :
  Drums.findByKey k = Some d ->
  Drums.findByName (Drums.name d) = Some d /\ Drums.key d = k /\
  Drums.synthsRef (Drums.name d) <> None.
Proof.
  intros H; cbn [Drums.findByKey find Drums.drumSounds Drums.key] in H;
    split_eqb H; try discriminate; injection H as <-; repeat split; discriminate.
Qed.

Lemma Drums_findByName_inv (n : string) (d : Drums.Drum) :
  Drums.findByName n = Some d ->
  Drums.findByKey (Drums.key d) = Some d /\ Drums.name d = n.
Proof.
  intros H; cbn [Drums.findByName find Drums.drumSounds Drums.name] in H;
    split_eqb H; try discriminate; injection H as <-; split; reflexivity.
Qed.

(** ** Visual-active predicate *)

Lemma Piano_held_active (id : string) (p : Panel) :
  Piano.keyHeld id p = true -> Piano.isKeyActive id p = true.
Proof.
  intros H; unfold Piano.keyHeld in H; apply existsb_exists in H as [k [Hk Hm]].
  destruct (Piano.lookup k Piano.keyboardMapping) as [v |] eqn:E; [| discriminate].
  apply String.eqb_eq in Hm; subst v.
  destruct (Piano_lookup_inv k id E) as [Hfind Hval].
  unfold Piano.isKeyActive; rewrite Hval, Hfind; simpl.
  apply orb_true_iff; right; apply setHas_In; exact Hk.
Qed.

Lemma Piano_active_window_or_held (t : Z) (id : string) (p : Panel) :
  activeTimed p ->
  Piano.isKeyActive id (fireDue t p) = true ->
  windowOpenAt t id (fireDue t p) || Piano.keyHeld id (fireDue t p) = true.
Proof.
  intros Ht H. unfold Piano.isKeyActive in H.
  apply orb_true_iff in H as [H | H]; apply orb_true_iff.
  - left. apply fireDue_windowOpen. apply setHas_In in H.
    pose proof (fireDue_activeTimed t p Ht) as Ht0.
    unfold activeTimed in Ht0; rewrite Forall_forall in Ht0; exact (Ht0 id H).
  - right. apply andb_true_iff in H as [Hv Hp].
    destruct (Piano_value_inv id Hv) as [k [Hfind Hlk]].
    rewrite Hfind in Hp; apply setHas_In in Hp.
    unfold Piano.keyHeld; apply existsb_exists; exists k; split; [exact Hp |].
    rewrite Hlk; apply String.eqb_refl.
Qed.

Lemma Drums_held_active (id : string) (p : Panel) :
  Drums.keyHeld id p = true -> Drums.isPadActive id p = true.
Proof.
  intros H; unfold Drums.keyHeld in H; apply existsb_exists in H as [k [Hk Hm]].
  destruct (Drums.findByKey k) as [d |] eqn:E; [| discriminate].
  apply String.eqb_eq in Hm; subst id.
  destruct (Drums_findByKey_inv k d E) as [Hname [Hkey _]].
  unfold Drums.isPadActive; rewrite Hname, Hkey.
  apply orb_true_iff; right; apply setHas_In; exact Hk.
Qed.

Lemma Drums_active_window_or_held (t : Z) (id : string) (p : Panel) :
  activeTimed p ->
  Drums.isPadActive id (fireDue t p) = true ->
  windowOpenAt t id (fireDue t p) || Drums.keyHeld id (fireDue t p) = true.
Proof.
  intros Ht H. unfold Drums.isPadActive in H.
  apply orb_true_iff in H as [H | H]; apply orb_true_iff.
  - left. apply fireDue_windowOpen. apply setHas_In in H.
    pose proof (fireDue_activeTimed t p Ht) as Ht0.
    unfold activeTimed in Ht0; rewrite Forall_forall in Ht0; exact (Ht0 id H).
  - right. destruct (Drums.findByName id) as [d |] eqn:E; [| discriminate].
    destruct (Drums_findByName_inv id d E) as [Hk Hn].
    apply setHas_In in H.
    unfold Drums.keyHeld; apply existsb_exists; exists (Drums.key d); split; [exact H |].
    rewrite Hk, Hn; apply String.eqb_refl.
Qed.

(** C6, as stated, fails: press [a] at 0 and release it at 50.  At 50 the
    150 ms window of C4 is still open, yet C4 is not shown active, since
    the key-up removes it from [activeKeys] at once. *)
Theorem visual_active_keyup_closes_window :
  let props := renderHandleNotePlay initSoundSpace in
  let q := fireDue 50 (fst (runPanel Piano.step
             [(props, 0, KeyDown "a"); (props, 50, KeyUp "a")] (mountPanel props))) in
  windowOpenAt 50 "C4" q = true /\ Piano.keyHeld "C4" q = false /\
  Piano.isKeyActive "C4" q = false.
Proof. vm_compute. repeat split. Qed.

(** C6, amended: at every instant [t] after any run from mount (the panel
    seen at [t] is the run's state with the timers due by [t] fired), a
    note whose key is held is shown active, and a note shown active has
    its timed window open or its key held; for Piano and for Drums. *)
Theorem visual_active_sound (props0 : HandleNotePlay)
    (evsP evsD : list (HandleNotePlay * Z * PEvent)) (t : Z) (id : string) :
  let p := fireDue t (fst (runPanel Piano.step evsP (mountPanel props0))) in
  let q := fireDue t (fst (runPanel Drums.step evsD (mountPanel props0))) in
  implb (Piano.keyHeld id p) (Piano.isKeyActive id p) = true /\
  implb (Piano.isKeyActive id p) (windowOpenAt t id p || Piano.keyHeld id p) = true /\
  implb (Drums.keyHeld id q) (Drums.isPadActive id q) = true /\
  implb (Drums.isPadActive id q) (windowOpenAt t id q || Drums.keyHeld id q) = true.
Proof.
  intros p q.
  destruct (Piano_run_invariants props0 evsP) as [_ HtP].
  destruct (Drums_run_invariants props0 evsD) as [_ HtD].
  repeat split; apply implb_true_iff; intros H.
  - apply Piano_held_active; exact H.
  - apply Piano_active_window_or_held; assumption.
  - apply Drums_held_active; exact H.
  - apply Drums_active_window_or_held; assumption.
Qed.

(** ** Key repeat *)

Lemma runPanel_mute (stp : PStep) (I : Panel -> Prop) (key : string) :
  (forall props t ev p, I p -> noKeyUpOf key ev = true -> I (fst (stp props t ev p))) ->
  (forall props t k p, I p -> toLowerCase k = key ->
     stp props t (KeyDown k) p = stp props t Tick p) ->
  forall (rest : list (HandleNotePlay * Z * PEvent)) p,
  I p -> Forall (fun e => noKeyUpOf key (snd e) = true) rest ->
  runPanel stp rest p =
  runPanel stp (map (fun e => (fst e, muteKeyDown key (snd e))) rest) p.
Proof.
  intros Hinv Hdown rest; induction rest as [| [[props t] ev] rest IH]; intros p Hp Hu.
  - reflexivity.
  - apply Forall_cons_iff in Hu as [Hu1 Hus]; simpl in Hu1.
    cbn [map runPanel fst snd].
    assert (E : stp props t (muteKeyDown key ev) p = stp props t ev p).
    { destruct ev as [k | k | n |]; try reflexivity; simpl.
      destruct (String.eqb_spec (toLowerCase k) key) as [Ek | _]; [| reflexivity].
      symmetry; exact (Hdown props t k p Hp Ek). }
    rewrite E. pose proof (Hinv props t ev p Hp Hu1) as Hp1.
    destruct (stp props t ev p) as [p1 o]; simpl in Hp1.
    rewrite <- (IH p1 Hp1 Hus). reflexivity.
Qed.

Lemma runPanel_invariant_on (stp : PStep) (I : Panel -> Prop) (P : PEvent -> bool) :
  (forall props t ev p, I p -> P ev = true -> I (fst (stp props t ev p))) ->
  forall evs p, I p -> Forall (fun e => P (snd e) = true) evs ->
  I (fst (runPanel stp evs p)).
Proof.
  intros Hstep evs; induction evs as [| [[props t] ev] evs IH]; intros p Hp Hu; simpl.
  - exact Hp.
  - apply Forall_cons_iff in Hu as [Hu1 Hus]; simpl in Hu1.
    specialize (Hstep props t ev p Hp Hu1).
    destruct (stp props t ev p) as [p1 o]; simpl in Hstep.
    specialize (IH p1 Hstep Hus).
    destruct (runPanel stp evs p1) as [pf os]; exact IH.
Qed.

Lemma setHas_add_other (x y : string) (s : list string) :
  setHas x s = true -> setHas x (setAdd y s) = true.
Proof. intros H; apply setHas_In, In_setAdd; right; apply setHas_In; exact H. Qed.

Lemma setHas_delete_other (x y : string) (s : list string) :
  setHas x s = true -> x <> y -> setHas x (setDelete y s) = true.
Proof. intros H N; apply setHas_In, In_setDelete; split; [apply setHas_In; exact H | exact N]. Qed.

Lemma setHas_add_absent (x y : string) (s : list string) :
  setHas x s = false -> x <> y -> setHas x (setAdd y s) = false.
Proof.
  intros H N; destruct (setHas x (setAdd y s)) eqn:E; [| reflexivity].
  apply setHas_In, In_setAdd in E as [E | E]; [contradiction |].
  apply setHas_In in E; congruence.
Qed.

Lemma setHas_delete_absent (x y : string) (s : list string) :
  setHas x s = false -> setHas x (setDelete y s) = false.
Proof.
  intros H; destruct (setHas x (setDelete y s)) eqn:E; [| reflexivity].
  apply setHas_In, In_setDelete in E as [E _]; apply setHas_In in E; congruence.
Qed.

Lemma noKeyUpOf_neq (key k : string) :
  noKeyUpOf key (KeyUp k) = true -> key <> toLowerCase k.
Proof. simpl; intros H E; rewrite E, String.eqb_refl in H; discriminate. Qed.

Lemma noKeyDownOf_neq (key k : string) :
  noKeyDownOf key (KeyDown k) = true -> key <> toLowerCase k.
Proof. simpl; intros H E; rewrite E, String.eqb_refl in H; discriminate. Qed.

(** A held key stays held, with fresh listeners, under every event that is
    not a key-up of it. *)
Lemma Piano_step_keeps_pressed (key : string) (props : HandleNotePlay) (t : Z)
    (ev : PEvent) (p : Panel) :
  listenerFresh p /\ setHas key (pressedKeys p) = true -> noKeyUpOf key ev = true ->
  listenerFresh (fst (Piano.step props t ev p)) /\
  setHas key (pressedKeys (fst (Piano.step props t ev p))) = true.
Proof.
  intros [Hf Hk] Hu.
  assert (Hf0 : listenerFresh (fireDue t p)) by exact Hf.
  assert (Hk0 : setHas key (pressedKeys (fireDue t p)) = true) by exact Hk.
  unfold Piano.step. set (p0 := fireDue t p) in *. clearbody p0.
  destruct ev as [k | k | n |].
  - unfold Piano.handleKeyDown.
    destruct (Piano.lookup _ _) as [n |]; [| split; assumption].
    destruct (negb _); simpl; [| split; assumption].
    split; [reflexivity | apply setHas_add_other; exact Hk0].
  - pose proof (noKeyUpOf_neq key k Hu) as N. unfold Piano.handleKeyUp.
    destruct (Piano.lookup _ _) as [n |]; simpl; [| split; assumption].
    split; [reflexivity | apply setHas_delete_other; assumption].
  - unfold Piano.handleKeyPress.
    destruct (existsb _ _); simpl; split; assumption.
  - split; assumption.
Qed.

Lemma Drums_step_keeps_pressed (key : string) (props : HandleNotePlay) (t : Z)
    (ev : PEvent) (p : Panel) :
  listenerFresh p /\ setHas key (pressedKeys p) = true -> noKeyUpOf key ev = true ->
  listenerFresh (fst (Drums.step props t ev p)) /\
  setHas key (pressedKeys (fst (Drums.step props t ev p))) = true.
Proof.
  intros [Hf Hk] Hu.
  assert (Hf0 : listenerFresh (fireDue t p)) by exact Hf.
  assert (Hk0 : setHas key (pressedKeys (fireDue t p)) = true) by exact Hk.
  unfold Drums.step. set (p0 := fireDue t p) in *. clearbody p0.
  destruct ev as [k | k | n |].
  - unfold Drums.handleKeyDown.
    destruct (Drums.findByKey _) as [d |]; [| split; assumption].
    destruct (negb _); simpl; [| split; assumption].
    unfold Drums.playDrum. destruct (Drums.synthsRef _); simpl;
      (split; [reflexivity | apply setHas_add_other; exact Hk0]).
  - pose proof (noKeyUpOf_neq key k Hu) as N. unfold Drums.handleKeyUp.
    destruct (Drums.findByKey _) as [d |]; simpl; [| split; assumption].
    split; [reflexivity | apply setHas_delete_other; assumption].
  - unfold Drums.handlePadClick.
    destruct (Drums.findByName _) as [d |]; simpl; [| split; assumption].
    unfold Drums.playDrum. destruct (Drums.synthsRef _); simpl; split; assumption.
  - split; assumption.
Qed.

(** A released key stays released, with fresh listeners, under every event
    that is not a key-down of it. *)
Lemma Piano_step_keeps_released (key : string) (props : HandleNotePlay) (t : Z)
    (ev : PEvent) (p : Panel) :
  listenerFresh p /\ setHas key (pressedKeys p) = false -> noKeyDownOf key ev = true ->
  listenerFresh (fst (Piano.step props t ev p)) /\
  setHas key (pressedKeys (fst (Piano.step props t ev p))) = false.
Proof.
  intros [Hf Hk] Hu.
  assert (Hf0 : listenerFresh (fireDue t p)) by exact Hf.
  assert (Hk0 : setHas key (pressedKeys (fireDue t p)) = false) by exact Hk.
  unfold Piano.step. set (p0 := fireDue t p) in *. clearbody p0.
  destruct ev as [k | k | n |].
  - pose proof (noKeyDownOf_neq key k Hu) as N. unfold Piano.handleKeyDown.
    destruct (Piano.lookup _ _) as [n |]; [| split; assumption].
    destruct (negb _); simpl; [| split; assumption].
    split; [reflexivity | apply setHas_add_absent; assumption].
  - unfold Piano.handleKeyUp.
    destruct (Piano.lookup _ _) as [n |]; simpl; [| split; assumption].
    split; [reflexivity | apply setHas_delete_absent; exact Hk0].
  - unfold Piano.handleKeyPress.
    destruct (existsb _ _); simpl; split; assumption.
  - split; assumption.
Qed.

Lemma Drums_step_keeps_released (key : string) (props : HandleNotePlay) (t : Z)
    (ev : PEvent) (p : Panel) :
  listenerFresh p /\ setHas key (pressedKeys p) = false -> noKeyDownOf key ev = true ->
  listenerFresh (fst (Drums.step props t ev p)) /\
  setHas key (pressedKeys (fst (Drums.step props t ev p))) = false.
Proof.
  intros [Hf Hk] Hu.
  assert (Hf0 : listenerFresh (fireDue t p)) by exact Hf.
  assert (Hk0 : setHas key (pressedKeys (fireDue t p)) = false) by exact Hk.
  unfold Drums.step. set (p0 := fireDue t p) in *. clearbody p0.
  destruct ev as [k | k | n |].
  - pose proof (noKeyDownOf_neq key k Hu) as N. unfold Drums.handleKeyDown.
    destruct (Drums.findByKey _) as [d |]; [| split; assumption].
    destruct (negb _); simpl; [| split; assumption].
    unfold Drums.playDrum. destruct (Drums.synthsRef _); simpl;
      (split; [reflexivity | apply setHas_add_absent; assumption]).
  - unfold Drums.handleKeyUp.
    destruct (Drums.findByKey _) as [d |]; simpl; [| split; assumption].
    split; [reflexivity | apply setHas_delete_absent; exact Hk0].
  - unfold Drums.handlePadClick.
    destruct (Drums.findByName _) as [d |]; simpl; [| split; assumption].
    unfold Drums.playDrum. destruct (Drums.synthsRef _); simpl; split; assumption.
  - split; assumption.
Qed.

Lemma Piano_keydown_held (props : HandleNotePlay) (t : Z) (k : string) (p : Panel) :
  listenerFresh p -> setHas (toLowerCase k) (pressedKeys p) = true ->
  Piano.step props t (KeyDown k) p = Piano.step props t Tick p.
Proof.
  intros Hf Hk. unfold Piano.step, Piano.handleKeyDown.
  change (l_pressedKeys (listener (fireDue t p))) with (l_pressedKeys (listener p)).
  rewrite Hf, Hk. destruct (Piano.lookup _ _); reflexivity.
Qed.

Lemma Drums_keydown_held (props : HandleNotePlay) (t : Z) (k : string) (p : Panel) :
  listenerFresh p -> setHas (toLowerCase k) (pressedKeys p) = true ->
  Drums.step props t (KeyDown k) p = Drums.step props t Tick p.
Proof.
  intros Hf Hk. unfold Drums.step, Drums.handleKeyDown.
  change (l_pressedKeys (listener (fireDue t p))) with (l_pressedKeys (listener p)).
  rewrite Hf, Hk. destruct (Drums.findByKey _); reflexivity.
Qed.

Lemma setHas_setAdd (x : string) (s : list string) : setHas x (setAdd x s) = true.
Proof. apply setHas_In, In_setAdd; left; reflexivity. Qed.

Lemma Piano_keydown_first (props : HandleNotePlay) (t : Z) (k n : string) (p : Panel) :
  listenerFresh p ->
  Piano.lookup (toLowerCase k) Piano.keyboardMapping = Some n ->
  setHas (toLowerCase k) (pressedKeys p) = false ->
  snd (Piano.step props t (KeyDown k) p) =
    [Sound "Synth" (Some n); NotePlayed (l_onNotePlay (listener p)) n] /\
  setHas n (active (fst (Piano.step props t (KeyDown k) p))) = true /\
  listenerFresh (fst (Piano.step props t (KeyDown k) p)) /\
  setHas (toLowerCase k) (pressedKeys (fst (Piano.step props t (KeyDown k) p))) = true.
Proof.
  intros Hf Hn Hk. unfold Piano.step, Piano.handleKeyDown.
  change (l_pressedKeys (listener (fireDue t p))) with (l_pressedKeys (listener p)).
  rewrite Hn, Hf, Hk; simpl.
  repeat split; try reflexivity; apply setHas_setAdd.
Qed.

Lemma Drums_keydown_first (props : HandleNotePlay) (t : Z) (k : string)
    (d : Drums.Drum) (p : Panel) :
  listenerFresh p ->
  Drums.findByKey (toLowerCase k) = Some d ->
  setHas (toLowerCase k) (pressedKeys p) = false ->
  (exists pitch, snd (Drums.step props t (KeyDown k) p) =
    [Sound (Drums.name d) pitch;
     NotePlayed (l_onNotePlay (listener p)) (Drums.name d ++ "-" ++ Drums.dnote d)]) /\
  setHas (Drums.name d) (active (fst (Drums.step props t (KeyDown k) p))) = true /\
  listenerFresh (fst (Drums.step props t (KeyDown k) p)) /\
  setHas (toLowerCase k) (pressedKeys (fst (Drums.step props t (KeyDown k) p))) = true.
Proof.
  intros Hf Hd Hk. destruct (Drums_findByKey_inv _ _ Hd) as [_ [_ Hs]].
  unfold Drums.step, Drums.handleKeyDown.
  change (l_pressedKeys (listener (fireDue t p))) with (l_pressedKeys (listener p)).
  rewrite Hd, Hf, Hk; simpl. unfold Drums.playDrum.
  destruct (Drums.synthsRef (Drums.name d)) as [sk |]; [| contradiction].
  simpl. repeat split; try reflexivity; try apply setHas_setAdd.
  destruct sk; eexists; reflexivity.
Qed.

(** C2: on either panel, after any run from mount, a key-down of a mapped
    key that is not pressed sounds once, marks its note (pad) active and
    calls [onNotePlay] once.  After it, whatever events follow, as long as
    none is a key-up of that key (other keys, pointer presses and the
    passing of time may come in between), every further key-down of the
    key has no effect: the run is the same, state and outputs, as the run
    in which each of these key-downs is replaced by the mere passing of
    time. *)
Theorem keydown_repeat_suppressed (props0 props : HandleNotePlay)
    (evsP evsD : list (HandleNotePlay * Z * PEvent)) (t0 : Z) (kP kD n : string)
    (d : Drums.Drum) (restP restD : list (HandleNotePlay * Z * PEvent)) :
  let p := fst (runPanel Piano.step evsP (mountPanel props0)) in
  let q := fst (runPanel Drums.step evsD (mountPanel props0)) in
  Piano.lookup (toLowerCase kP) Piano.keyboardMapping = Some n ->
  setHas (toLowerCase kP) (pressedKeys p) = false ->
  Forall (fun e => noKeyUpOf (toLowerCase kP) (snd e) = true) restP ->
  Drums.findByKey (toLowerCase kD) = Some d ->
  setHas (toLowerCase kD) (pressedKeys q) = false ->
  Forall (fun e => noKeyUpOf (toLowerCase kD) (snd e) = true) restD ->
  (let p1 := fst (Piano.step props t0 (KeyDown kP) p) in
   snd (Piano.step props t0 (KeyDown kP) p) =
     [Sound "Synth" (Some n); NotePlayed (l_onNotePlay (listener p)) n] /\
   setHas n (active p1) = true /\
   runPanel Piano.step restP p1 =
   runPanel Piano.step
     (map (fun e => (fst e, muteKeyDown (toLowerCase kP) (snd e))) restP) p1) /\
  (let q1 := fst (Drums.step props t0 (KeyDown kD) q) in
   (exists pitch, snd (Drums.step props t0 (KeyDown kD) q) =
     [Sound (Drums.name d) pitch;
      NotePlayed (l_onNotePlay (listener q)) (Drums.name d ++ "-" ++ Drums.dnote d)]) /\
   setHas (Drums.name d) (active q1) = true /\
   runPanel Drums.step restD q1 =
   runPanel Drums.step
     (map (fun e => (fst e, muteKeyDown (toLowerCase kD) (snd e))) restD) q1).
Proof.
  intros p q HnP HkP HrP HdD HkD HrD.
  destruct (Piano_run_invariants props0 evsP) as [HfP _].
  destruct (Drums_run_invariants props0 evsD) as [HfD _].
  fold p in HfP; fold q in HfD.
  destruct (Piano_keydown_first props t0 kP n p HfP HnP HkP) as [Ho1 [Ha1 [Hf1 Hp1]]].
  destruct (Drums_keydown_first props t0 kD d q HfD HdD HkD) as [Ho2 [Ha2 [Hf2 Hp2]]].
  split; [split; [exact Ho1 | split; [exact Ha1 |]] | split; [exact Ho2 | split; [exact Ha2 |]]].
  - apply (runPanel_mute Piano.step
             (fun p => listenerFresh p /\ setHas (toLowerCase kP) (pressedKeys p) = true)).
    + intros pr t ev p' Hp' Hu; apply Piano_step_keeps_pressed; assumption.
    + intros pr t k p' [Hf Hk] Heq. rewrite <- Heq in Hk.
      apply Piano_keydown_held; assumption.
    + split; assumption.
    + exact HrP.
  - apply (runPanel_mute Drums.step
             (fun p => listenerFresh p /\ setHas (toLowerCase kD) (pressedKeys p) = true)).
    + intros pr t ev p' Hp' Hu; apply Drums_step_keeps_pressed; assumption.
    + intros pr t k p' [Hf Hk] Heq. rewrite <- Heq in Hk.
      apply Drums_keydown_held; assumption.
    + split; assumption.
    + exact HrD.
Qed.

(** C9: on the drums panel, after any run from mount, a key-down of [s]
    while [s] is not pressed triggers the Kick synthesizer at C2 and calls
    [onNotePlay("Kick-C2")]. *)
Theorem drums_s_plays_kick (props0 props : HandleNotePlay)
    (evs : list (HandleNotePlay * Z * PEvent)) (t : Z) :
  let q := fst (runPanel Drums.step evs (mountPanel props0)) in
  setHas "s" (pressedKeys q) = false ->
  snd (Drums.step props t (KeyDown "s") q) =
    [Sound "Kick" (Some "C2"); NotePlayed (l_onNotePlay (listener q)) "Kick-C2"].
Proof.
  intros q Hk.
  destruct (Drums_run_invariants props0 evs) as [Hf _]; fold q in Hf.
  unfold Drums.step, Drums.handleKeyDown.
  change (l_pressedKeys (listener (fireDue t q))) with (l_pressedKeys (listener q)).
  replace (toLowerCase "s") with "s" by reflexivity.
  rewrite Hf. change (pressedKeys (fireDue t q)) with (pressedKeys q).
  rewrite Hk. reflexivity.
Qed.

(** ** Recording timestamps *)

(** The log is sorted and no timestamp exceeds [t - recordingStartTime]. *)
Definition logTimesOk (t : Z) (s : SoundSpace) : Prop :=
  StronglySorted Z.le (map timestamp (recordedNotes s)) /\
  Forall (fun x => x <= t - recordingStartTime s) (map timestamp (recordedNotes s)).

Lemma StronglySorted_snoc (l : list Z) (x : Z) :
  StronglySorted Z.le l -> Forall (fun y => y <= x) l -> StronglySorted Z.le (l ++ [x]).
Proof.
  induction l as [| a l IH]; intros Hs Hf; simpl.
  - repeat constructor.
  - apply StronglySorted_inv in Hs as [Hs Ha].
    apply Forall_cons_iff in Hf as [Hax Hf].
    constructor; [exact (IH Hs Hf) |].
    apply Forall_app; split; [exact Ha | constructor; [exact Hax | constructor]].
Qed.

Lemma logTimesOk_mono (t t' : Z) (s : SoundSpace) :
  t <= t' -> logTimesOk t s -> logTimesOk t' s.
Proof.
  intros Hle [Hs Hf]; split; [exact Hs |].
  eapply Forall_impl; [| exact Hf]; intros x Hx; simpl in Hx; lia.
Qed.

Lemma handleNotePlay_logTimesOk (f : HandleNotePlay) (n : string) (t : Z) (s : SoundSpace) :
  logTimesOk t s -> logTimesOk t (handleNotePlay f n t s).
Proof.
  intros [Hs Hf]; unfold handleNotePlay.
  destruct (cap_isRecording f); [| split; assumption].
  unfold logTimesOk; simpl; rewrite map_app; simpl; split.
  - apply StronglySorted_snoc; assumption.
  - apply Forall_app; split; [exact Hf | constructor; [lia | constructor]].
Qed.

Lemma applyOutputs_logTimesOk (t : Z) (outs : list Output) (s : SoundSpace) :
  logTimesOk t s -> logTimesOk t (applyOutputs t outs s).
Proof.
  unfold applyOutputs; revert s; induction outs as [| o outs IH]; intros s Hs; simpl.
  - exact Hs.
  - apply IH. destruct o; [exact Hs | apply handleNotePlay_logTimesOk; exact Hs].
Qed.

Lemma appStep_logTimesOk (t t' : Z) (inp : Input) (a : App) :
  t <= t' -> logTimesOk t (session a) -> logTimesOk t' (session (fst (appStep t' inp a))).
Proof.
  intros Hle Hs. pose proof (logTimesOk_mono t t' _ Hle Hs) as Hs'.
  unfold appStep; destruct inp as [i | | | | ev].
  - destruct (Instrument_eqb _ _); [exact Hs' |]. exact Hs'.
  - destruct (isRecording _); [exact Hs' |]. split; constructor.
  - destruct (isRecording _); exact Hs'.
  - destruct (Nat.ltb _ _); [destruct (handleDownloadRecording _ _) |]; exact Hs'.
  - destruct (panelStep _ _ _ _ _) as [p' outs]; simpl.
    apply applyOutputs_logTimesOk; exact Hs'.
Qed.

Lemma appRun_logTimesOk (tr : list (Z * Input)) (t : Z) (a : App) :
  timesFrom t tr -> logTimesOk t (session a) ->
  StronglySorted Z.le (map timestamp (recordedNotes (session (appRun tr a)))).
Proof.
  revert t a; induction tr as [| [t' inp] tr IH]; intros t a Htr Hs; simpl.
  - exact (proj1 Hs).
  - destruct Htr as [Hle Htr].
    exact (IH t' _ Htr (appStep_logTimesOk t t' inp a Hle Hs)).
Qed.

(** C7: after [startRecording()] at [t0], whatever inputs follow at
    instants that do not go back, the log's timestamps are non-decreasing
    in log order. *)
Theorem recording_timestamps_sorted (a : App) (t0 : Z) (tr : list (Z * Input)) :
  timesFrom t0 tr ->
  StronglySorted Z.le (map timestamp (recordedNotes (session
    (appRun tr (mkApp (handleStartRecording t0 (session a)) (panel a)))))).
Proof.
  intros Htr. apply (appRun_logTimesOk tr t0); [exact Htr |].
  split; constructor.
Qed.

(** ** Witnesses: the hypotheses above hold at concrete inputs *)

Definition props_init : HandleNotePlay := renderHandleNotePlay initSoundSpace.

Definition kickDrum : Drums.Drum := Drums.mkDrum "Kick" "s" "from-red-500 to-red-600" "C2".

(** After [a] (Piano) or [S] (Drums) is pressed: other keys, a pointer
    press and repeats of the key, with no key-up of it. *)
Definition repeatTraceP : list (HandleNotePlay * Z * PEvent) :=
  [(props_init, 10, KeyDown "s"); (props_init, 20, KeyDown "A");
   (props_init, 30, PointerDown "E4"); (props_init, 40, KeyUp "s");
   (props_init, 50, KeyDown "a")].

Definition repeatTraceD : list (HandleNotePlay * Z * PEvent) :=
  [(props_init, 10, KeyDown "d"); (props_init, 20, KeyUp "d");
   (props_init, 30, PointerDown "Tom"); (props_init, 40, KeyDown "s")].

Lemma keydown_repeat_suppressed_witness :
  Forall (fun e => noKeyUpOf (toLowerCase "a") (snd e) = true) repeatTraceP /\
  runPanel Piano.step repeatTraceP
    (fst (Piano.step props_init 0 (KeyDown "a") (mountPanel props_init))) =
  runPanel Piano.step
    (map (fun e => (fst e, muteKeyDown (toLowerCase "a") (snd e))) repeatTraceP)
    (fst (Piano.step props_init 0 (KeyDown "a") (mountPanel props_init))).
Proof.
  assert (HP : Forall (fun e => noKeyUpOf (toLowerCase "a") (snd e) = true) repeatTraceP)
    by (unfold repeatTraceP; repeat constructor).
  assert (HD : Forall (fun e => noKeyUpOf (toLowerCase "S") (snd e) = true) repeatTraceD)
    by (unfold repeatTraceD; repeat constructor).
  split; [exact HP |].
  exact (proj2 (proj2 (proj1 (keydown_repeat_suppressed props_init props_init [] [] 0
    "a" "S" "C4" kickDrum repeatTraceP repeatTraceD eq_refl eq_refl HP eq_refl eq_refl HD)))).
Defined.

Lemma drums_s_plays_kick_witness :
  setHas "s" (pressedKeys (mountPanel props_init)) = false /\
  snd (Drums.step props_init 5 (KeyDown "s") (mountPanel props_init)) =
    [Sound "Kick" (Some "C2"); NotePlayed props_init "Kick-C2"].
Proof.
  split; [reflexivity |].
  exact (drums_s_plays_kick props_init props_init [] 5 eq_refl).
Defined.

Lemma recording_timestamps_sorted_witness :
  timesFrom 10 [(20, PanelInput (KeyDown "a")); (30, PanelInput (KeyUp "a"));
                (40, PanelInput (PointerDown "E4"))] /\
  StronglySorted Z.le (map timestamp (recordedNotes (session
    (appRun [(20, PanelInput (KeyDown "a")); (30, PanelInput (KeyUp "a"));
             (40, PanelInput (PointerDown "E4"))]
       (mkApp (handleStartRecording 10 (session initApp)) (panel initApp)))))).
Proof.
  split; [simpl; lia |].
  apply (recording_timestamps_sorted initApp 10); simpl; lia.
Defined.

(* ================================================================== *)
(** * Further properties of the panels and the page *)

Lemma setHas_setDelete (x : string) (s : list string) : setHas x (setDelete x s) = false.
Proof.
  destruct (setHas x (setDelete x s)) eqn:E; [| reflexivity].
  apply setHas_In, In_setDelete in E as [_ N]; contradiction.
Qed.

(** Pointer presses: a mouse-down on a rendered piano key or drum pad
    always sounds and calls the current render's [onNotePlay], whatever
    keys are held, marks the note (pad) active, and leaves the held keys
    and the registered listeners alone. *)
Theorem pointer_press_always_plays (props : HandleNotePlay) (t : Z) (n nm : string)
    (d : Drums.Drum) (p q : Panel) :
  In n (Piano.whiteKeys ++ Piano.blackKeys) ->
  Drums.findByName nm = Some d ->
  let p1 := fst (Piano.step props t (PointerDown n) p) in
  let q1 := fst (Drums.step props t (PointerDown nm) q) in
  snd (Piano.step props t (PointerDown n) p) = [Sound "Synth" (Some n); NotePlayed props n] /\
  setHas n (active p1) = true /\
  pressedKeys p1 = pressedKeys p /\ listener p1 = listener p /\
  (exists pitch, snd (Drums.step props t (PointerDown nm) q) =
     [Sound nm pitch; NotePlayed props (nm ++ "-" ++ Drums.dnote d)]) /\
  setHas nm (active q1) = true /\
  pressedKeys q1 = pressedKeys q /\ listener q1 = listener q.
Proof.
  intros Hn Hd p1 q1.
  destruct (Drums_findByName_inv nm d Hd) as [Hk Hname].
  destruct (Drums_findByKey_inv _ _ Hk) as [_ [_ Hs]].
  assert (He : existsb (String.eqb n) (Piano.whiteKeys ++ Piano.blackKeys) = true).
  { apply existsb_exists; exists n; split; [exact Hn | apply String.eqb_refl]. }
  subst p1 q1; unfold Piano.step, Drums.step, Piano.handleKeyPress, Drums.handlePadClick.
  rewrite He, Hd, Hname. rewrite Hname in Hs. unfold Drums.playDrum.
  destruct (Drums.synthsRef nm) as [sk |]; [| contradiction].
  simpl; repeat split; try apply setHas_setAdd.
  destruct sk; eexists; reflexivity.
Qed.

(** Key-up of a mapped key: no sound and no report, and the note (pad)
    is no longer shown active, even inside its timed window; the listeners
    registered by the render that follows close over that render's
    [onNotePlay].  Whatever events come next, as long as none is a key-down
    of that key, the key stays released, so its next key-down triggers
    again: it sounds and reports through the [onNotePlay] of the listeners
    registered at that moment (the render after the key-up when nothing
    came in between). *)
Theorem keyup_clears_and_rearms (props1 props2 : HandleNotePlay) (t1 t2 : Z)
    (kP kD n : string) (d : Drums.Drum) (p q : Panel)
    (midP midD : list (HandleNotePlay * Z * PEvent)) :
  Piano.lookup (toLowerCase kP) Piano.keyboardMapping = Some n ->
  Drums.findByKey (toLowerCase kD) = Some d ->
  Forall (fun e => noKeyDownOf (toLowerCase kP) (snd e) = true) midP ->
  Forall (fun e => noKeyDownOf (toLowerCase kD) (snd e) = true) midD ->
  let p1 := fst (Piano.step props1 t1 (KeyUp kP) p) in
  let q1 := fst (Drums.step props1 t1 (KeyUp kD) q) in
  let pm := fst (runPanel Piano.step midP p1) in
  let qm := fst (runPanel Drums.step midD q1) in
  snd (Piano.step props1 t1 (KeyUp kP) p) = [] /\
  Piano.isKeyActive n p1 = false /\
  l_onNotePlay (listener p1) = props1 /\
  snd (Piano.step props2 t2 (KeyDown kP) pm) =
    [Sound "Synth" (Some n); NotePlayed (l_onNotePlay (listener pm)) n] /\
  snd (Drums.step props1 t1 (KeyUp kD) q) = [] /\
  Drums.isPadActive (Drums.name d) q1 = false /\
  l_onNotePlay (listener q1) = props1 /\
  (exists pitch, snd (Drums.step props2 t2 (KeyDown kD) qm) =
     [Sound (Drums.name d) pitch;
      NotePlayed (l_onNotePlay (listener qm)) (Drums.name d ++ "-" ++ Drums.dnote d)]).
Proof.
  intros HP HD HmP HmD p1 q1 pm qm.
  destruct (Piano_lookup_inv _ _ HP) as [HfindP _].
  destruct (Drums_findByKey_inv _ _ HD) as [HfindD [HkeyD _]].
  assert (EP : p1 = mkPanel (setDelete n (active (fireDue t1 p)))
                  (setDelete (toLowerCase kP) (pressedKeys p)) (timers (fireDue t1 p))
                  (mkListener (setDelete (toLowerCase kP) (pressedKeys p)) props1)).
  { subst p1; unfold Piano.step, Piano.handleKeyUp; rewrite HP; reflexivity. }
  assert (EQ : q1 = mkPanel (setDelete (Drums.name d) (active (fireDue t1 q)))
                  (setDelete (toLowerCase kD) (pressedKeys q)) (timers (fireDue t1 q))
                  (mkListener (setDelete (toLowerCase kD) (pressedKeys q)) props1)).
  { subst q1; unfold Drums.step, Drums.handleKeyUp; rewrite HD; reflexivity. }
  assert (FP : listenerFresh p1) by (rewrite EP; reflexivity).
  assert (FQ : listenerFresh q1) by (rewrite EQ; reflexivity).
  assert (NP : setHas (toLowerCase kP) (pressedKeys p1) = false)
    by (rewrite EP; apply setHas_setDelete).
  assert (NQ : setHas (toLowerCase kD) (pressedKeys q1) = false)
    by (rewrite EQ; apply setHas_setDelete).
  assert (IP : listenerFresh pm /\ setHas (toLowerCase kP) (pressedKeys pm) = false).
  { apply (runPanel_invariant_on Piano.step
             (fun p => listenerFresh p /\ setHas (toLowerCase kP) (pressedKeys p) = false)
             (noKeyDownOf (toLowerCase kP))).
    - intros; apply Piano_step_keeps_released; assumption.
    - split; assumption.
    - exact HmP. }
  assert (IQ : listenerFresh qm /\ setHas (toLowerCase kD) (pressedKeys qm) = false).
  { apply (runPanel_invariant_on Drums.step
             (fun p => listenerFresh p /\ setHas (toLowerCase kD) (pressedKeys p) = false)
             (noKeyDownOf (toLowerCase kD))).
    - intros; apply Drums_step_keeps_released; assumption.
    - split; assumption.
    - exact HmD. }
  destruct IP as [FPm NPm]; destruct IQ as [FQm NQm].
  destruct (Piano_keydown_first props2 t2 kP n pm FPm HP NPm) as [OP _].
  destruct (Drums_keydown_first props2 t2 kD d qm FQm HD NQm) as [OQ _].
  repeat split; try assumption.
  - unfold Piano.step, Piano.handleKeyUp; rewrite HP; reflexivity.
  - rewrite EP; unfold Piano.isKeyActive; simpl.
    rewrite setHas_setDelete, HfindP, setHas_setDelete, andb_false_r; reflexivity.
  - rewrite EP; reflexivity.
  - unfold Drums.step, Drums.handleKeyUp; rewrite HD; reflexivity.
  - rewrite EQ; unfold Drums.isPadActive; simpl.
    rewrite setHas_setDelete, HfindD, HkeyD, setHas_setDelete; reflexivity.
  - rewrite EQ; reflexivity.
Qed.

Lemma filter_all_expired (t : Z) (ts : list (string * Z)) :
  Forall (fun te => snd te <= t) ts -> filter (fun te => t <? snd te) ts = [].
Proof.
  induction ts as [| te ts IH]; intros H; [reflexivity |].
  apply Forall_cons_iff in H as [H1 H2]; simpl.
  destruct (t <? snd te) eqn:E; [apply Z.ltb_lt in E; lia | exact (IH H2)].
Qed.

Lemma fireDue_all_expired (t : Z) (p : Panel) :
  activeTimed p -> Forall (fun te => snd te <= t) (timers p) ->
  active (fireDue t p) = [] /\ timers (fireDue t p) = [].
Proof.
  intros Ht He.
  assert (T : timers (fireDue t p) = []) by (apply filter_all_expired; exact He).
  split; [| exact T].
  pose proof (fireDue_activeTimed t p Ht) as H; unfold activeTimed in H.
  rewrite T in H. destruct (active (fireDue t p)) as [| x l]; [reflexivity |].
  apply Forall_cons_iff in H as [H _]; contradiction.
Qed.

(** Once every pending active-state timer has expired, no note (pad) keeps
    an active mark, and a note (pad) is shown active exactly when a key
    mapped to it is held; for any run from mount of either panel. *)
Theorem expired_timers_leave_only_held
    (props0 : HandleNotePlay) (evsP evsD : list (HandleNotePlay * Z * PEvent))
    (t : Z) (id : string) :
  let p := fst (runPanel Piano.step evsP (mountPanel props0)) in
  let q := fst (runPanel Drums.step evsD (mountPanel props0)) in
  Forall (fun te => snd te <= t) (timers p) ->
  Forall (fun te => snd te <= t) (timers q) ->
  active (fireDue t p) = [] /\
  Piano.isKeyActive id (fireDue t p) = Piano.keyHeld id (fireDue t p) /\
  active (fireDue t q) = [] /\
  Drums.isPadActive id (fireDue t q) = Drums.keyHeld id (fireDue t q).
Proof.
  intros p q HeP HeQ.
  destruct (Piano_run_invariants props0 evsP) as [_ HtP]; fold p in HtP.
  destruct (Drums_run_invariants props0 evsD) as [_ HtQ]; fold q in HtQ.
  destruct (fireDue_all_expired t p HtP HeP) as [AP TP].
  destruct (fireDue_all_expired t q HtQ HeQ) as [AQ TQ].
  assert (WP : windowOpenAt t id (fireDue t p) = false)
    by (unfold windowOpenAt; rewrite TP; reflexivity).
  assert (WQ : windowOpenAt t id (fireDue t q) = false)
    by (unfold windowOpenAt; rewrite TQ; reflexivity).
  repeat split; try assumption.
  - destruct (Piano.keyHeld id (fireDue t p)) eqn:K.
    + apply Piano_held_active; exact K.
    + destruct (Piano.isKeyActive id (fireDue t p)) eqn:A; [| reflexivity].
      pose proof (Piano_active_window_or_held t id p HtP A) as H.
      rewrite WP, K in H; discriminate.
  - destruct (Drums.keyHeld id (fireDue t q)) eqn:K.
    + apply Drums_held_active; exact K.
    + destruct (Drums.isPadActive id (fireDue t q)) eqn:A; [| reflexivity].
      pose proof (Drums_active_window_or_held t id q HtQ A) as H.
      rewrite WQ, K in H; discriminate.
Qed.

(** ** The page *)

Lemma applyOutputs_append (t : Z) (outs : list Output) (s : SoundSpace) :
  exists new,
    recordedNotes (applyOutputs t outs s) = (recordedNotes s ++ new)%list /\
    activeInstrument (applyOutputs t outs s) = activeInstrument s /\
    isRecording (applyOutputs t outs s) = isRecording s /\
    recordingStartTime (applyOutputs t outs s) = recordingStartTime s /\
    Forall (fun e => exists f n, In (NotePlayed f n) outs /\
              e = mkNoteEvent (cap_activeInstrument f) n (t - recordingStartTime s)) new.
Proof.
  unfold applyOutputs; revert s; induction outs as [| o outs IH]; intros s; simpl.
  - exists []; rewrite app_nil_r; repeat split; constructor.
  - set (s1 := match o with
               | NotePlayed f n => handleNotePlay f n t s
               | Sound _ _ => s end).
    assert (H1 : exists new1,
      recordedNotes s1 = (recordedNotes s ++ new1)%list /\ activeInstrument s1 = activeInstrument s /\
      isRecording s1 = isRecording s /\ recordingStartTime s1 = recordingStartTime s /\
      Forall (fun e => exists f n, o = NotePlayed f n /\
                e = mkNoteEvent (cap_activeInstrument f) n (t - recordingStartTime s)) new1).
    { subst s1; destruct o as [v pch | f n].
      - exists []; rewrite app_nil_r; repeat split; constructor.
      - unfold handleNotePlay; destruct (cap_isRecording f).
        + exists [mkNoteEvent (cap_activeInstrument f) n (t - recordingStartTime s)].
          repeat split; repeat constructor; exists f, n; split; reflexivity.
        + exists []; rewrite app_nil_r; repeat split; constructor. }
    destruct H1 as [new1 [R1 [A1 [I1 [S1 F1]]]]].
    destruct (IH s1) as [new2 [R2 [A2 [I2 [S2 F2]]]]].
    exists (new1 ++ new2)%list. rewrite R2, R1, app_assoc, A2, A1, I2, I1, S2, S1.
    repeat split. apply Forall_app; split.
    + eapply Forall_impl; [| exact F1]; intros e [f [n [-> He]]].
      exists f, n; split; [left; reflexivity | exact He].
    + eapply Forall_impl; [| exact F2]; intros e [f [n [Hin He]]].
      exists f, n; split; [right; exact Hin | rewrite He, S1; reflexivity].
Qed.

(** The log is append-only: every input either leaves the logged events
    and the start time in place (possibly appending new events), or is a
    click on Record while not recording, which empties the log. *)
Theorem log_append_only (t : Z) (inp : Input) (a : App) :
  let a' := fst (appStep t inp a) in
  (exists new, recordedNotes (session a') = (recordedNotes (session a) ++ new)%list /\
               recordingStartTime (session a') = recordingStartTime (session a)) \/
  (inp = ClickRecord /\ isRecording (session a) = false /\ recordedNotes (session a') = []).
Proof.
  intros a'; subst a'; unfold appStep.
  destruct inp as [i | | | | ev].
  - left; exists []; rewrite app_nil_r.
    destruct (Instrument_eqb _ _); split; reflexivity.
  - destruct (isRecording (session a)) eqn:R.
    + left; exists []; rewrite app_nil_r; split; reflexivity.
    + right; repeat split.
  - left; exists []; rewrite app_nil_r.
    destruct (isRecording _); split; reflexivity.
  - left; exists []; rewrite app_nil_r.
    destruct (Nat.ltb _ _); [destruct (handleDownloadRecording _ _) |]; split; reflexivity.
  - left. destruct (panelStep _ _ _ _ _) as [p' outs]; simpl.
    destruct (applyOutputs_append t outs (session a)) as [new [R [_ [_ [S _]]]]].
    exists new; split; assumption.
Qed.

(** Which [onNotePlay] closures a panel event can call or register: the
    current render's props or the one the listeners already hold. *)
Definition fromClosures (props : HandleNotePlay) (p : Panel) (f : HandleNotePlay) : Prop :=
  f = props \/ f = l_onNotePlay (listener p).

Ltac closures_out :=
  let f := fresh "f" in let m := fresh "m" in let Hin := fresh "Hin" in
  intros f m Hin; simpl in Hin;
  repeat destruct Hin as [Hin | Hin]; try discriminate; try contradiction;
  injection Hin as <- _; unfold fromClosures; auto.

Lemma Piano_step_closures (props : HandleNotePlay) (t : Z) (ev : PEvent) (p : Panel) :
  (forall f m, In (NotePlayed f m) (snd (Piano.step props t ev p)) -> fromClosures props p f) /\
  fromClosures props p (l_onNotePlay (listener (fst (Piano.step props t ev p)))).
Proof.
  unfold Piano.step. destruct ev as [k | k | n |]; simpl.
  - unfold Piano.handleKeyDown.
    destruct (Piano.lookup _ _) as [n |]; [destruct (negb _) |]; simpl;
      (split; [closures_out | unfold fromClosures; auto]).
  - unfold Piano.handleKeyUp.
    destruct (Piano.lookup _ _) as [n |]; simpl;
      (split; [closures_out | unfold fromClosures; auto]).
  - unfold Piano.handleKeyPress.
    destruct (existsb _ _); simpl; (split; [closures_out | unfold fromClosures; auto]).
  - split; [closures_out | unfold fromClosures; auto].
Qed.

Lemma Drums_step_closures (props : HandleNotePlay) (t : Z) (ev : PEvent) (p : Panel) :
  (forall f m, In (NotePlayed f m) (snd (Drums.step props t ev p)) -> fromClosures props p f) /\
  fromClosures props p (l_onNotePlay (listener (fst (Drums.step props t ev p)))).
Proof.
  unfold Drums.step. destruct ev as [k | k | n |]; simpl.
  - unfold Drums.handleKeyDown.
    destruct (Drums.findByKey _) as [d |]; [destruct (negb _) |]; simpl;
      [unfold Drums.playDrum; destruct (Drums.synthsRef _) as [[] |]; simpl | |];
      (split; [closures_out | unfold fromClosures; auto]).
  - unfold Drums.handleKeyUp.
    destruct (Drums.findByKey _) as [d |]; simpl;
      (split; [closures_out | unfold fromClosures; auto]).
  - unfold Drums.handlePadClick.
    destruct (Drums.findByName _) as [d |]; simpl;
      [unfold Drums.playDrum; destruct (Drums.synthsRef _) as [[] |]; simpl |];
      (split; [closures_out | unfold fromClosures; auto]).
  - split; [closures_out | unfold fromClosures; auto].
Qed.

(** The closure held by the mounted panel's listeners was made under the
    currently selected instrument. *)
Definition listenerInstrumentOk (a : App) : Prop :=
  cap_activeInstrument (l_onNotePlay (listener (panel a))) = activeInstrument (session a).

Lemma panelStep_closures (i : Instrument) (props : HandleNotePlay) (t : Z)
    (ev : PEvent) (p : Panel) :
  (forall f m, In (NotePlayed f m) (snd (panelStep i props t ev p)) -> fromClosures props p f) /\
  fromClosures props p (l_onNotePlay (listener (fst (panelStep i props t ev p)))).
Proof. destruct i; [apply Piano_step_closures | apply Drums_step_closures]. Qed.

Lemma appStep_listenerInstrumentOk (t : Z) (inp : Input) (a : App) :
  listenerInstrumentOk a -> listenerInstrumentOk (fst (appStep t inp a)).
Proof.
  unfold listenerInstrumentOk, appStep; intros H.
  destruct inp as [i | | | | ev].
  - destruct (Instrument_eqb _ _); [exact H | reflexivity].
  - destruct (isRecording _); exact H.
  - destruct (isRecording _); exact H.
  - destruct (Nat.ltb _ _); [destruct (handleDownloadRecording _ _) |]; exact H.
  - destruct (panelStep_closures (activeInstrument (session a))
                (renderHandleNotePlay (session a)) t ev (panel a)) as [_ HL].
    destruct (panelStep _ _ _ _ _) as [p' outs]; simpl in *.
    destruct (applyOutputs_append t outs (session a)) as [_ [_ [A _]]].
    rewrite A. destruct HL as [HL | HL]; rewrite HL; [reflexivity | exact H].
Qed.

Lemma appRun_listenerInstrumentOk (tr : list (Z * Input)) (a : App) :
  listenerInstrumentOk a -> listenerInstrumentOk (appRun tr a).
Proof.
  revert a; induction tr as [| [t inp] tr IH]; intros a H; simpl; [exact H |].
  apply IH, appStep_listenerInstrumentOk, H.
Qed.

(** On the page, whatever inputs came before, a key or pointer event on the
    panel only appends to the log, and every event it appends is tagged
    with the currently selected instrument and stamped with the time since
    the recording start. *)
Theorem panel_input_appends_tagged (tr : list (Z * Input)) (t : Z) (ev : PEvent) :
  let a := appRun tr initApp in
  let a' := fst (appStep t (PanelInput ev) a) in
  exists new,
    recordedNotes (session a') = (recordedNotes (session a) ++ new)%list /\
    Forall (fun e => instrument e = activeInstrument (session a) /\
                     timestamp e = t - recordingStartTime (session a)) new.
Proof.
  intros a a'.
  assert (HI : listenerInstrumentOk a) by (apply appRun_listenerInstrumentOk; reflexivity).
  subst a'; unfold appStep.
  destruct (panelStep_closures (activeInstrument (session a))
              (renderHandleNotePlay (session a)) t ev (panel a)) as [HO _].
  destruct (panelStep _ _ _ _ _) as [p' outs]; simpl in *.
  destruct (applyOutputs_append t outs (session a)) as [new [R [_ [_ [_ F]]]]].
  exists new; split; [exact R |].
  eapply Forall_impl; [| exact F]; intros e [f [m [Hin ->]]]; simpl.
  split; [| reflexivity].
  destruct (HO f m Hin) as [-> | ->]; [reflexivity | exact HI].
Qed.

(** Every logged timestamp is non-negative and the start time is not in
    the future. *)
Definition logNonneg (t : Z) (s : SoundSpace) : Prop :=
  recordingStartTime s <= t /\ Forall (fun e => 0 <= timestamp e) (recordedNotes s).

Lemma appStep_logNonneg (t t' : Z) (inp : Input) (a : App) :
  t <= t' -> logNonneg t (session a) -> logNonneg t' (session (fst (appStep t' inp a))).
Proof.
  intros Hle [Hst Hf].
  assert (Hs' : logNonneg t' (session a)) by (split; [lia | exact Hf]).
  unfold appStep; destruct inp as [i | | | | ev].
  - destruct (Instrument_eqb _ _); exact Hs'.
  - destruct (isRecording _); [exact Hs' |]. split; [simpl; lia | constructor].
  - destruct (isRecording _); exact Hs'.
  - destruct (Nat.ltb _ _); [destruct (handleDownloadRecording _ _) |]; exact Hs'.
  - destruct (panelStep _ _ _ _ _) as [p' outs]; simpl.
    destruct (applyOutputs_append t' outs (session a)) as [new [R [_ [_ [S F]]]]].
    split; [rewrite S; lia |]. rewrite R; apply Forall_app; split; [exact Hf |].
    eapply Forall_impl; [| exact F]; intros e [f [m [_ ->]]]; simpl; lia.
Qed.

Lemma appRun_logNonneg (tr : list (Z * Input)) (t : Z) (a : App) :
  timesFrom t tr -> logNonneg t (session a) ->
  Forall (fun e => 0 <= timestamp e) (recordedNotes (session (appRun tr a))).
Proof.
  revert t a; induction tr as [| [t' inp] tr IH]; intros t a Htr Hs; simpl.
  - exact (proj2 Hs).
  - destruct Htr as [Hle Htr].
    exact (IH t' _ Htr (appStep_logNonneg t t' inp a Hle Hs)).
Qed.

(** From page load, with a clock that starts at 0 and never goes back,
    every logged event has a non-negative timestamp. *)
Theorem logged_timestamps_nonneg (tr : list (Z * Input)) :
  timesFrom 0 tr ->
  Forall (fun e => 0 <= timestamp e) (recordedNotes (session (appRun tr initApp))).
Proof.
  intros Htr; apply (appRun_logNonneg tr 0); [exact Htr |].
  split; [simpl; lia | constructor].
Qed.

Lemma StronglySorted_snoc_inv (l : list Z) (x : Z) :
  StronglySorted Z.le (l ++ [x]) -> Forall (fun y => y <= x) l.
Proof.
  induction l as [| a l IH]; intros H; [constructor |].
  simpl in H; apply StronglySorted_inv in H as [H Ha].
  constructor; [| exact (IH H)].
  rewrite Forall_forall in Ha; apply Ha, in_or_app; right; left; reflexivity.
Qed.

Lemma lastTimestamp_snoc (l : list NoteEvent) (e : NoteEvent) :
  lastTimestamp (l ++ [e]) = orZero (timestamp e).
Proof. unfold lastTimestamp; rewrite nth_error_last_app; reflexivity. Qed.

(** From page load, with a clock that starts at 0 and never goes back, a
    downloaded recording has a non-negative duration that is at least the
    timestamp of every note in it. *)
Theorem download_duration_bounds (tr : list (Z * Input)) (now : Z) (r : Recording) :
  timesFrom 0 tr ->
  handleDownloadRecording now (session (appRun tr initApp)) = Some r ->
  0 <= duration r /\ Forall (fun e => timestamp e <= duration r) (notes r).
Proof.
  intros Htr Hr.
  pose proof (appRun_logNonneg tr 0 initApp Htr
                (conj (Z.le_refl 0) (Forall_nil _))) as Hnn.
  pose proof (appRun_logTimesOk tr 0 initApp Htr (conj (SSorted_nil _) (Forall_nil _))) as Hso.
  unfold handleDownloadRecording in Hr.
  destruct (recordedNotes (session (appRun tr initApp))) as [| x l0] eqn:E; [discriminate |].
  injection Hr as <-; simpl. rewrite <- E in *.
  destruct (rev (recordedNotes (session (appRun tr initApp)))) as [| e l] eqn:Er.
  { apply (f_equal (@rev _)) in Er; rewrite rev_involutive, E in Er; discriminate. }
  apply (f_equal (@rev _)) in Er; rewrite rev_involutive in Er; simpl in Er.
  rewrite Er in *. rewrite lastTimestamp_snoc.
  rewrite map_app in Hso; simpl in Hso.
  apply StronglySorted_snoc_inv in Hso.
  apply Forall_app in Hnn as [_ He]; apply Forall_cons_iff in He as [He _].
  assert (Hz : orZero (timestamp e) = timestamp e)
    by (unfold orZero; destruct (timestamp e =? 0) eqn:Z0; [apply Z.eqb_eq in Z0; lia | reflexivity]).
  rewrite Hz; split; [exact He |].
  apply Forall_app; split.
  - rewrite Forall_map in Hso; exact Hso.
  - constructor; [lia | constructor].
Qed.

(** ** Witnesses for the further properties *)

Definition snareDrum : Drums.Drum :=
  Drums.mkDrum "Snare" "d" "from-orange-500 to-orange-600" "D2".

Lemma pointer_press_always_plays_witness :
  In "C4" (Piano.whiteKeys ++ Piano.blackKeys) /\
  Drums.findByName "Snare" = Some snareDrum /\
  snd (Piano.step props_init 0 (PointerDown "C4") (mountPanel props_init)) =
    [Sound "Synth" (Some "C4"); NotePlayed props_init "C4"].
Proof.
  split; [simpl; auto | split; [reflexivity |]].
  refine (proj1 (pointer_press_always_plays props_init 0 "C4" "Snare" snareDrum
                   (mountPanel props_init) (mountPanel props_init) _ _));
    [simpl; auto | reflexivity].
Defined.

(** Between the key-up of [a] ([s]) and its next key-down: other keys
    pressed and released, a pointer press. *)
Definition rearmTraceP : list (HandleNotePlay * Z * PEvent) :=
  [(props_init, 15, KeyDown "s"); (props_init, 16, PointerDown "C4");
   (props_init, 17, KeyUp "S")].

Definition rearmTraceD : list (HandleNotePlay * Z * PEvent) :=
  [(props_init, 15, KeyDown "d"); (props_init, 16, KeyUp "s")].

Lemma keyup_clears_and_rearms_witness :
  Forall (fun e => noKeyDownOf (toLowerCase "a") (snd e) = true) rearmTraceP /\
  snd (Piano.step props_init 20 (KeyDown "a")
         (fst (runPanel Piano.step rearmTraceP
                 (fst (Piano.step props_init 10 (KeyUp "a") (mountPanel props_init)))))) =
    [Sound "Synth" (Some "C4");
     NotePlayed (l_onNotePlay (listener
       (fst (runPanel Piano.step rearmTraceP
               (fst (Piano.step props_init 10 (KeyUp "a") (mountPanel props_init))))))) "C4"].
Proof.
  assert (HP : Forall (fun e => noKeyDownOf (toLowerCase "a") (snd e) = true) rearmTraceP)
    by (unfold rearmTraceP; repeat constructor).
  assert (HD : Forall (fun e => noKeyDownOf (toLowerCase "s") (snd e) = true) rearmTraceD)
    by (unfold rearmTraceD; repeat constructor).
  split; [exact HP |].
  exact (proj1 (proj2 (proj2 (proj2 (keyup_clears_and_rearms props_init props_init 10 20
    "a" "s" "C4" kickDrum (mountPanel props_init) (mountPanel props_init)
    rearmTraceP rearmTraceD eq_refl eq_refl HP HD))))).
Defined.

Lemma expired_timers_leave_only_held_witness :
  Forall (fun te => snd te <= 150)
    (timers (fst (runPanel Piano.step [(props_init, 0, PointerDown "C4")]
                    (mountPanel props_init)))) /\
  active (fireDue 150 (fst (runPanel Piano.step [(props_init, 0, PointerDown "C4")]
                              (mountPanel props_init)))) = [].
Proof.
  assert (H : Forall (fun te => snd te <= 150)
    (timers (fst (runPanel Piano.step [(props_init, 0, PointerDown "C4")]
                    (mountPanel props_init))))).
  { vm_compute. constructor; [discriminate | constructor]. }
  split; [exact H |].
  exact (proj1 (expired_timers_leave_only_held props_init
                  [(props_init, 0, PointerDown "C4")] [] 150 "C4" H (Forall_nil _))).
Defined.

Lemma logged_timestamps_nonneg_witness :
  timesFrom 0 [(10, ClickRecord); (20, PanelInput (PointerDown "C4"))] /\
  Forall (fun e => 0 <= timestamp e)
    (recordedNotes (session (appRun [(10, ClickRecord); (20, PanelInput (PointerDown "C4"))]
                               initApp))).
Proof.
  split; [simpl; lia |].
  apply logged_timestamps_nonneg; simpl; lia.
Defined.

Lemma download_duration_bounds_witness :
  handleDownloadRecording 30
    (session (appRun [(10, ClickRecord); (20, PanelInput (PointerDown "C4"))] initApp))
  = Some (mkRecording 30 [mkNoteEvent piano "C4" 10] 10) /\
  0 <= 10.
Proof.
  assert (H : handleDownloadRecording 30
    (session (appRun [(10, ClickRecord); (20, PanelInput (PointerDown "C4"))] initApp))
    = Some (mkRecording 30 [mkNoteEvent piano "C4" 10] 10)) by reflexivity.
  split; [exact H |].
  exact (proj1 (download_duration_bounds
                  [(10, ClickRecord); (20, PanelInput (PointerDown "C4"))] 30 _
                  ltac:(simpl; lia) H)).
Defined.
